(** * fetch_taxonomy_subset.py: a shallow embedding and its properties

    The script [scripts/fetch_taxonomy_subset.py] downloads the Google
    product taxonomy, keeps the lines of the "Electronics" branch, pads
    the result from a fixed list when fewer than 15 lines survive, sorts,
    keeps 20 entries and dumps a JSON record to
    [public/taxonomy-subset.json].

    Conventions of the embedding:
    - a Python [str] is the list of its code points ([list N]); comparison
      of [str] values is code point by code point, as in CPython;
    - [print] appends one entry to [stdout]; the file system is a finite
      map from paths to the text held by each file (the script opens its
      output in text mode with encoding utf-8, so the bytes on disk are the
      UTF-8 image of that text, with the newline of a POSIX platform);
    - what the network and the disk answer is given by two oracles, so
      that every outcome the [try] blocks can see is covered. *)

From Stdlib Require Import NArith ZArith Ascii String DecimalString.
From stdpp Require Import gmap strings list sorting.

Set Warnings "-register-all".
Local Open Scope N_scope.

(** ** Python [str] *)

Abbreviation str := (list N).

(** A literal of the source, code point by code point (ASCII literals). *)
Definition lit (s : string) : str := N_of_ascii <$> list_ascii_of_string s.

(** Truth value of a [str]: the empty string is the only falsy one. *)
Definition str_bool (s : str) : bool :=
  match s with [] => false | _ :: _ => true end.

(** [str.isspace] on one code point, the set [str.strip()] removes:
    CPython's [_PyUnicode_IsWhitespace]. *)
Definition isspace (c : N) : bool :=
  ((0x09 <=? c) && (c <=? 0x0D)) || ((0x1C <=? c) && (c <=? 0x1F))
  || (c =? 0x20) || (c =? 0x85) || (c =? 0xA0) || (c =? 0x1680)
  || ((0x2000 <=? c) && (c <=? 0x200A))
  || (c =? 0x2028) || (c =? 0x2029) || (c =? 0x202F) || (c =? 0x205F)
  || (c =? 0x3000).

Fixpoint lstrip (s : str) : str :=
  match s with
  | c :: s' => if isspace c then lstrip s' else s
  | [] => []
  end.

Definition rstrip (s : str) : str := rev (lstrip (rev s)).

(** [s.strip()] *)
Definition strip (s : str) : str := rstrip (lstrip s).

(** [s.split(sep)] for a separator of one code point; the result is never
    empty: [''.split('\n') == ['']]. *)
Fixpoint split (sep : N) (s : str) : list str :=
  match s with
  | [] => [[]]
  | c :: s' =>
      if c =? sep then [] :: split sep s'
      else match split sep s' with
           | cur :: rest => (c :: cur) :: rest
           | [] => [[c]]
           end
  end.

(** [s.startswith(prefix)] *)
Fixpoint startswith (s prefix : str) : bool :=
  match prefix, s with
  | [], _ => true
  | _ :: _, [] => false
  | p :: prefix', c :: s' => (c =? p) && startswith s' prefix'
  end.

(** Comparison of two [str] values: the first differing code point
    decides, a proper prefix is smaller. *)
Fixpoint str_compare (a b : str) : comparison :=
  match a, b with
  | [], [] => Eq
  | [], _ :: _ => Lt
  | _ :: _, [] => Gt
  | x :: a', y :: b' =>
      match x ?= y with
      | Eq => str_compare a' b'
      | Lt => Lt
      | Gt => Gt
      end
  end.

(** [a <= b] on [str]. *)
Definition str_le (a b : str) : Prop := str_compare a b ≠ Gt.

#[global] Instance str_le_dec (a b : str) : Decision (str_le a b).
Proof. unfold str_le. apply _. Defined.

(** ** The fragment of [re] the script uses

    Every pattern of the script is [^] followed by characters that stand
    for themselves, and is used through [re.match] without flags: the
    match is tried at position 0 only and [^] holds at position 0 only. *)

Inductive re_node : Type :=
  | ReBol                (* [^] : beginning of the string *)
  | ReLit (c : N).       (* a character that stands for itself *)

(** The characters [re] gives a meaning to. *)
Definition re_special (c : N) : bool :=
  bool_decide (c ∈ lit ".^$*+?{}[]\|()").

Definition re_compile (pattern : str) : list re_node :=
  (λ c, if c =? 94 then ReBol else ReLit c) <$> pattern.

Fixpoint re_run (prog : list re_node) (pos : nat) (s : str) : bool :=
  match prog with
  | [] => true
  | ReBol :: prog' => Nat.eqb pos 0 && re_run prog' pos s
  | ReLit c :: prog' =>
      match s with
      | d :: s' => (d =? c) && re_run prog' (S pos) s'
      | [] => false
      end
  end.

(** Truth value of [re.match(pattern, line)]. *)
Definition re_match (pattern line : str) : bool :=
  re_run (re_compile pattern) 0 line.

(** ** [extract_electronics_categories] *)

Definition target_patterns : list str :=
  [ lit "^Electronics";
    lit "^Electronics > Audio";
    lit "^Electronics > Cameras";
    lit "^Electronics > Communications";
    lit "^Electronics > Computers";
    lit "^Electronics > Gaming";
    lit "^Electronics > Home Audio";
    lit "^Electronics > Mobile Phones";
    lit "^Electronics > Tablets";
    lit "^Electronics > Video";
    lit "^Electronics > Wearables" ].

(** The inner loop: [for pattern in target_patterns], with its [break]
    after the first pattern that matches. *)
Fixpoint match_patterns (patterns : list str) (line : str)
    (electronics_categories : list str) : list str :=
  match patterns with
  | [] => electronics_categories
  | pattern :: patterns' =>
      if re_match pattern line
      then electronics_categories ++ [line]
      else match_patterns patterns' line electronics_categories
  end.

(** One turn of the outer loop [for line in lines]. *)
Definition filter_line (electronics_categories : list str) (line : str)
    : list str :=
  let line := strip line in
  if str_bool line && negb (startswith line (lit "#"))
  then match_patterns target_patterns line electronics_categories
  else electronics_categories.

(** The value of [electronics_categories] after the first loop. *)
Definition filter_lines (content : str) : list str :=
  let lines := split 10 (strip content) in
  fold_left filter_line lines [].

Definition additional_categories : list str :=
  [ lit "Electronics > Audio > Headphones";
    lit "Electronics > Audio > Speakers";
    lit "Electronics > Cameras > Digital Cameras";
    lit "Electronics > Communications > Telephony > Mobile Phone Accessories";
    lit "Electronics > Communications > Telephony > Mobile Phones";
    lit "Electronics > Computers > Desktop Computers";
    lit "Electronics > Computers > Laptops";
    lit "Electronics > Computers > Tablets";
    lit "Electronics > Gaming > Video Game Consoles";
    lit "Electronics > Home Audio > Home Theater Systems";
    lit "Electronics > Mobile Phones > Smartphones";
    lit "Electronics > Video > Televisions";
    lit "Electronics > Wearables > Smartwatches";
    lit "Electronics > Wearables > Fitness Trackers" ].

(** One turn of [for category in additional_categories]. *)
Definition add_category (electronics_categories : list str) (category : str)
    : list str :=
  if decide (category ∈ electronics_categories)
  then electronics_categories
  else electronics_categories ++ [category].

(** The block under [if len(electronics_categories) < 15]. *)
Definition pad_categories (electronics_categories : list str) : list str :=
  if decide (length electronics_categories < 15)%nat
  then fold_left add_category additional_categories electronics_categories
  else electronics_categories.

(** [list.sort()] on a list of [str]: a stable merge sort under the
    comparison of [str]. *)
Definition list_sort (l : list str) : list str := merge_sort str_le l.

(** The list before [sort] and the slice. *)
Definition combined_categories (content : str) : list str :=
  pad_categories (filter_lines content).

Definition extract_electronics_categories (content : str) : list str :=
  if negb (str_bool content) then []
  else take 20 (list_sort (combined_categories content)).

(** ** [json.dump(obj, fp, indent=2, ensure_ascii=False)]

    The values the script serialises: strings, integers, lists and a
    [dict] with string keys, which keeps the order of insertion. *)

Inductive json : Type :=
  | JStr (s : str)
  | JInt (n : Z)
  | JList (items : list json)
  | JDict (items : list (str * json)).

(** [obj[key]] on a [dict] value. *)
Fixpoint assoc_get (key : str) (items : list (str * json)) : option json :=
  match items with
  | [] => None
  | (k, v) :: items' => if decide (k = key) then Some v else assoc_get key items'
  end.

Definition dict_get (key : str) (o : json) : option json :=
  match o with
  | JDict items => assoc_get key items
  | _ => None
  end.

Definition hex_digit (n : N) : N := if n <? 10 then 48 + n else 87 + n.

(** [json.encoder.ESCAPE_DCT]: the backslash, the double quote and the
    code points below 0x20 are escaped, everything else is kept. *)
Definition escape_char (c : N) : str :=
  if c =? 92 then [92; 92]
  else if c =? 34 then [92; 34]
  else if c =? 8 then lit "\b"
  else if c =? 12 then lit "\f"
  else if c =? 10 then lit "\n"
  else if c =? 13 then lit "\r"
  else if c =? 9 then lit "\t"
  else if c <? 32 then lit "\u00" ++ [hex_digit (c / 16); hex_digit (c mod 16)]
  else [c].

Definition encode_basestring (s : str) : str :=
  [34] ++ concat (escape_char <$> s) ++ [34].

(** [int.__repr__] *)
Definition int_repr (n : Z) : str := lit (NilZero.string_of_int (Z.to_int n)).

(** ['\n' + indent * level] with [indent = 2] spaces. *)
Definition newline_indent (level : nat) : str := 10 :: replicate (2 * level) 32.

(** The text [json.dump] writes, chunk after chunk; with [indent] set the
    item separator is [','] and the key separator is [': ']. *)
Fixpoint iterencode (o : json) (level : nat) : str :=
  match o with
  | JStr s => encode_basestring s
  | JInt n => int_repr n
  | JList [] => lit "[]"
  | JList (x :: xs) =>
      lit "[" ++ newline_indent (S level) ++ iterencode x (S level)
      ++ (fix rest (xs : list json) : str :=
            match xs with
            | [] => []
            | y :: ys =>
                lit "," ++ newline_indent (S level)
                ++ iterencode y (S level) ++ rest ys
            end) xs
      ++ newline_indent level ++ lit "]"
  | JDict [] => lit "{}"
  | JDict ((k, v) :: kvs) =>
      lit "{" ++ newline_indent (S level)
      ++ encode_basestring k ++ lit ": " ++ iterencode v (S level)
      ++ (fix rest (kvs : list (str * json)) : str :=
            match kvs with
            | [] => []
            | (k', v') :: kvs' =>
                lit "," ++ newline_indent (S level)
                ++ encode_basestring k' ++ lit ": "
                ++ iterencode v' (S level) ++ rest kvs'
            end) kvs
      ++ newline_indent level ++ lit "}"
  end.

Definition json_dumps (o : json) : str := iterencode o 0.


(** ** The process: standard output and the file system *)

Record world : Type := World {
  stdout : list str;
  files : gmap string str
}.

(** What [urlopen(...).read().decode('utf-8')] does: it returns the body
    or raises; [e] is the text of the exception. *)
Inductive net_reply : Type :=
  | Body (content : str)
  | NetRaises (e : str).

(** What [open(output_file, 'w')] followed by [json.dump] does: it
    completes, or it raises and leaves the file as it was ([None]) or
    holding some text ([Some t]). *)
Inductive disk_reply : Type :=
  | WriteOk
  | WriteRaises (e : str) (left : option str).

Definition prog (A : Type) : Type := world → A * world.

Definition ret {A} (a : A) : prog A := λ w, (a, w).

Definition bind {A B} (c : prog A) (k : A → prog B) : prog B :=
  λ w, let (a, w') := c w in k a w'.

Notation "'let*' x := c1 'in' c2" := (bind c1 (λ x, c2))
  (at level 10, x name, c1 at level 100, c2 at level 200).
Notation "c1 ;; c2" := (bind c1 (λ _, c2))
  (at level 100, right associativity).

Definition exec {A} (c : prog A) (w : world) : world := snd (c w).

Definition print (s : str) : prog unit :=
  λ w, (tt, {| stdout := stdout w ++ [s]; files := files w |}).

(** The [with open(...) as f: json.dump(...)] of [main]; the result is the
    exception raised, if any. *)
Definition dump_to_file (disk : disk_reply) (path : string) (o : json)
    : prog (option str) :=
  λ w,
    match disk with
    | WriteOk =>
        (None, {| stdout := stdout w;
                  files := <[path := json_dumps o]> (files w) |})
    | WriteRaises e None => (Some e, w)
    | WriteRaises e (Some t) =>
        (Some e, {| stdout := stdout w; files := <[path := t]> (files w) |})
    end.

(** ** [fetch_taxonomy] *)

Definition url : string :=
  "https://www.google.com/basepages/producttype/taxonomy-with-ids.en-US.txt".

Definition fetch_taxonomy (net : net_reply) : prog (option str) :=
  match net with
  | Body content => ret (Some content)
  | NetRaises e =>
      print (lit "Error fetching taxonomy: " ++ e) ;;
      ret None
  end.

(** ** [main] *)

Definition output_file : string := "public/taxonomy-subset.json".

Definition subset_data (categories : list str) : json :=
  JDict
    [ (lit "source", JStr (lit url));
      (lit "count", JInt (Z.of_nat (length categories)));
      (lit "categories", JList (JStr <$> categories));
      (lit "description",
        JStr (lit "Curated subset of Google Product Taxonomy for electronics recommerce"));
      (lit "lastUpdated", JStr (lit "2024-01-15")) ].

(** The format [{i:2d}]. *)
Definition format_2d (i : nat) : str :=
  let digits := int_repr (Z.of_nat i) in
  replicate (2 - length digits) 32 ++ digits.

(** [for i, category in enumerate(categories, 1): print(...)], from [i]. *)
Fixpoint print_categories (i : nat) (categories : list str) : prog unit :=
  match categories with
  | [] => ret tt
  | category :: categories' =>
      print (lit "  " ++ format_2d i ++ lit ". " ++ category) ;;
      print_categories (S i) categories'
  end.

(** The lines [main] prints; the first code point of each is its emoji. *)
Definition msg_fetching : str :=
  0x1F50D :: lit " Fetching Google Product Taxonomy...".
Definition msg_failed : str := 0x274C :: lit " Failed to fetch taxonomy".
Definition msg_fetched : str := 0x2705 :: lit " Taxonomy fetched successfully".
Definition msg_found (n : nat) : str :=
  0x1F4F1 :: lit " Found " ++ int_repr (Z.of_nat n) ++ lit " electronics categories".
Definition msg_written : str :=
  0x2705 :: lit " Categories written to " ++ lit output_file.
Definition msg_total (n : nat) : str :=
  0x1F4CA :: lit " Total categories: " ++ int_repr (Z.of_nat n).
Definition msg_included : str := 10 :: 0x1F4CB :: lit " Categories included:".
Definition msg_write_error (e : str) : str :=
  0x274C :: lit " Error writing file: " ++ e.

Definition main (net : net_reply) (disk : disk_reply) : prog unit :=
  print msg_fetching ;;
  let* content := fetch_taxonomy net in
  match content with
  | None | Some [] =>
      print msg_failed
  | Some content =>
      print msg_fetched ;;
      let categories := extract_electronics_categories content in
      print (msg_found (length categories)) ;;
      let* raised := dump_to_file disk output_file (subset_data categories) in
      match raised with
      | None =>
          print msg_written ;;
          print (msg_total (length categories)) ;;
          print msg_included ;;
          print_categories 1 categories
      | Some e => print (msg_write_error e)
      end
  end.

(** ** The filter as the specification words it *)

(** Of the stripped lines, those that start with "Electronics" are kept, in
    the order of the text. *)
Definition keeps_prefix (line : str) : bool :=
  startswith line (lit "Electronics").

Definition filter_by_prefix (content : str) : list str :=
  filter (λ line, keeps_prefix line) (strip <$> split 10 (strip content)).

(** The same filter over the lines of the text as it is, without the
    [strip] of the whole text. *)
Definition filter_by_prefix_lines (content : str) : list str :=
  filter (λ line, keeps_prefix line) (strip <$> split 10 content).

(** A pattern of the shape [^] + [root] + more, all of it literal. *)
Definition anchored_under (root pattern : str) : bool :=
  match pattern with
  | c :: p => (c =? 94) && startswith p root && negb (existsb re_special p)
  | [] => false
  end.

(** ** Runs and texts used below *)

(** [main], given the body [content] and a disk that takes the write,
    leaves in [output_file] the dump of the record built on [categories],
    whatever the file system held before. *)
Definition writes_record (content : str) (categories : list str) : Prop :=
  ∀ w : world,
    files (exec (main (Body content) WriteOk) w) !! output_file
    = Some (json_dumps (subset_data categories)).

(** A process that has printed nothing, on an empty file system. *)
Definition fresh : world := {| stdout := []; files := ∅ |}.

(** A file system where the output of an earlier run is still there. *)
Definition stale : world :=
  {| stdout := [lit "earlier"]; files := {[ output_file := lit "{}" ]} |}.

(** The text of the scenario of the specification. *)
Definition scenario_text : str :=
  lit "Electronics > Audio" ++ [10]
  ++ lit "Electronics > Audio > Headphones" ++ [10]
  ++ lit "RandomCategory" ++ [10]
  ++ lit "# comment" ++ [10].

(** A text in which one line comes twice. *)
Definition repeated_text : str :=
  lit "Electronics" ++ [10] ++ lit "Electronics" ++ [10].

(** The text that has the entries of a list one per line. *)
Fixpoint join_lines (l : list str) : str :=
  match l with
  | [] => []
  | x :: l' =>
      match l' with
      | [] => x
      | _ :: _ => x ++ 10 :: join_lines l'
      end
  end.

(** A text of white space only: a space, a newline, a tab. *)
Definition blank_text : str := [32; 10; 9].

(** The two kept lines of the scenario, the other way round. *)
Definition swapped_text : str :=
  lit "Electronics > Audio > Headphones" ++ [10] ++ lit "Electronics > Audio".

(** Twenty-two different lines of the branch, in descending order. *)
Definition wide_text : str :=
  concat ((λ c, lit "Electronics > " ++ [c; 10]) <$> lit "vutsrqponmlkjihgfedcba").

(** Sixteen different lines of the branch, not in ascending order. *)
Definition long_text : str :=
  concat ((λ c, lit "Electronics > " ++ [c; 10]) <$> lit "ponmlkjihgfedcba").

(** * Properties *)

(** ** The primitives on small inputs *)

Example strip_example :
  strip ([32; 9] ++ lit "a b" ++ [13; 10; 0xA0]) = lit "a b".
Proof. reflexivity. Qed.

Example split_example :
  split 10 (lit "a" ++ [10; 10] ++ lit "b") = [lit "a"; []; lit "b"]
  ∧ split 10 [] = [[]]
  ∧ split 10 (lit "a" ++ [10]) = [lit "a"; []].
Proof. by repeat split. Qed.

Example re_match_example :
  re_match (lit "^Electronics > Audio") (lit "Electronics > Audio > Speakers") = true
  ∧ re_match (lit "^Electronics > Audio") (lit "Electronics > Video") = false
  ∧ re_match (lit "^Electronics") (lit " Electronics") = false.
Proof. by repeat split. Qed.

Example str_compare_example :
  str_compare (lit "Electronics > Audio") (lit "Electronics > Audio > Headphones") = Lt
  ∧ str_compare (lit "Electronics > Wearables > Smartwatches")
      (lit "Electronics > Wearables > Fitness Trackers") = Gt
  ∧ str_compare (lit "Z") (lit "a") = Lt.
Proof. by repeat split. Qed.

Example format_2d_example :
  format_2d 7 = lit " 7" ∧ format_2d 12 = lit "12" ∧ format_2d 123 = lit "123".
Proof. by repeat split. Qed.

Example json_dumps_example :
  json_dumps (JDict [(lit "n", JInt 2); (lit "l", JList [JStr [9; 34]; JStr (lit "a")]);
                     (lit "e", JList [])])
  = lit "{" ++ [10] ++ lit "  " ++ [34] ++ lit "n" ++ [34] ++ lit ": 2," ++ [10]
    ++ lit "  " ++ [34] ++ lit "l" ++ [34] ++ lit ": [" ++ [10]
    ++ lit "    " ++ [34] ++ lit "\t\" ++ [34; 34] ++ lit "," ++ [10]
    ++ lit "    " ++ [34] ++ lit "a" ++ [34; 10]
    ++ lit "  ]," ++ [10]
    ++ lit "  " ++ [34] ++ lit "e" ++ [34] ++ lit ": []" ++ [10] ++ lit "}".
Proof. reflexivity. Qed.

Example whitespace_only_text_is_padded :
  extract_electronics_categories [10] = list_sort additional_categories.
Proof. by vm_compute. Qed.

(** ** The order on [str] *)

Section StrOrder.

Lemma str_compare_refl (a : str) : str_compare a a = Eq.
Proof. induction a as [|x a IH]; simpl; [done|]. by rewrite N.compare_refl. Qed.

Lemma str_compare_eq (a b : str) : str_compare a b = Eq → a = b.
Proof.
  revert b. induction a as [|x a IH]; intros [|y b]; simpl; try done.
  destruct (x ?= y) eqn:Hxy; try done.
  apply N.compare_eq in Hxy. intros H. f_equal; auto.
Qed.

Lemma str_compare_antisym (a b : str) :
  str_compare b a = CompOpp (str_compare a b).
Proof.
  revert b. induction a as [|x a IH]; intros [|y b]; simpl; try done.
  rewrite (N.compare_antisym x y).
  destruct (x ?= y); simpl; auto.
Qed.

Lemma str_compare_lt_trans (a b c : str) :
  str_compare a b = Lt → str_compare b c = Lt → str_compare a c = Lt.
Proof.
  revert b c. induction a as [|x a IH]; intros [|y b] [|z c]; simpl; try done.
  destruct (x ?= y) eqn:Hxy; try done.
  - apply N.compare_eq in Hxy as ->.
    destruct (y ?= z); try done. apply IH.
  - intros _. destruct (y ?= z) eqn:Hyz; try done.
    + apply N.compare_eq in Hyz as <-. by rewrite Hxy.
    + intros _. rewrite N.compare_lt_iff in Hxy, Hyz.
      by rewrite (proj2 (N.compare_lt_iff x z) (N.lt_trans _ _ _ Hxy Hyz)).
Qed.

#[global] Instance str_le_refl : Reflexive str_le.
Proof. intros a. unfold str_le. by rewrite str_compare_refl. Qed.

#[global] Instance str_le_total : Total str_le.
Proof.
  intros a b. unfold str_le. rewrite (str_compare_antisym a b).
  destruct (str_compare a b); simpl; auto.
Qed.

#[global] Instance str_le_antisym : AntiSymm (=) str_le.
Proof.
  intros a b. unfold str_le. rewrite (str_compare_antisym a b).
  destruct (str_compare a b) eqn:Hab; simpl; try done.
  intros _ _. by apply str_compare_eq.
Qed.

#[global] Instance str_le_trans : Transitive str_le.
Proof.
  intros a b c. unfold str_le.
  destruct (str_compare a b) eqn:Hab; try done; intros _.
  - by apply str_compare_eq in Hab as ->.
  - destruct (str_compare b c) eqn:Hbc; try done; intros _.
    + apply str_compare_eq in Hbc as <-. by rewrite Hab.
    + by rewrite (str_compare_lt_trans a b c).
Qed.

End StrOrder.

(** ** [list.sort()] and the slice [[:20]] *)

Lemma list_sort_Sorted (l : list str) : Sorted str_le (list_sort l).
Proof. apply (Sorted_merge_sort str_le). Qed.

Lemma list_sort_Permutation (l : list str) : list_sort l ≡ₚ l.
Proof. apply (merge_sort_Permutation str_le). Qed.

(** Whatever the sorting algorithm, the result is the same list: there is
    one ascending arrangement of a list of [str]. *)
Lemma list_sort_unique (l l' : list str) :
  Sorted str_le l' → l' ≡ₚ l → l' = list_sort l.
Proof.
  intros Hs Hp. apply (Sorted_unique str_le); [done|apply list_sort_Sorted|].
  by rewrite list_sort_Permutation.
Qed.

Lemma Sorted_take (n : nat) (l : list str) :
  Sorted str_le l → Sorted str_le (take n l).
Proof.
  intros Hs. apply Sorted_StronglySorted in Hs; [|apply _].
  apply StronglySorted_Sorted.
  rewrite <- (take_drop n l) in Hs.
  by apply StronglySorted_app_1_l in Hs.
Qed.

(** ** The filter *)

Lemma target_patterns_shape :
  forallb (anchored_under (lit "Electronics")) target_patterns = true.
Proof. vm_compute. reflexivity. Qed.

Lemma startswith_trans (s p q : str) :
  startswith s p = true → startswith p q = true → startswith s q = true.
Proof.
  revert s p. induction q as [|c q IH]; intros s p; [by destruct s|].
  destruct p as [|d p]; [done|]. destruct s as [|e s]; [done|]. simpl.
  rewrite !andb_true_iff, !N.eqb_eq. intros [-> Hs] [-> Hp]. eauto.
Qed.

Lemma re_run_literal (p : str) (pos : nat) (s : str) :
  existsb re_special p = false →
  re_run (re_compile p) pos s = startswith s p.
Proof.
  revert pos s. induction p as [|c p IH]; intros pos s; simpl; [by destruct s|].
  rewrite orb_false_iff. intros [Hc Hp].
  destruct (c =? 94) eqn:E.
  - apply N.eqb_eq in E as ->. by vm_compute in Hc.
  - destruct s as [|d s]; [done|]. by rewrite IH.
Qed.

Lemma re_match_anchored (root pattern line : str) :
  anchored_under root pattern = true →
  re_match pattern line = startswith line (tail pattern)
  ∧ (re_match pattern line = true → startswith line root = true).
Proof.
  destruct pattern as [|c p]; [done|]. simpl.
  rewrite !andb_true_iff, negb_true_iff, N.eqb_eq. intros [[-> Hroot] Hlit].
  assert (re_match (94 :: p) line = startswith line p) as ->.
  { unfold re_match. simpl. by apply re_run_literal. }
  split; [done|]. intros Hl. by apply startswith_trans with p.
Qed.

Lemma match_patterns_none (root : str) (patterns : list str) (line : str)
    (acc : list str) :
  forallb (anchored_under root) patterns = true →
  startswith line root = false →
  match_patterns patterns line acc = acc.
Proof.
  intros Hall Hline. induction patterns as [|p ps IH]; [done|].
  simpl in *. apply andb_true_iff in Hall as [Hp Hps].
  destruct (re_match_anchored root p line Hp) as [_ Himp].
  destruct (re_match p line); [|by apply IH].
  rewrite Himp in Hline; done.
Qed.

Lemma match_patterns_prefix (line : str) (acc : list str) :
  match_patterns target_patterns line acc
  = if keeps_prefix line then acc ++ [line] else acc.
Proof.
  unfold keeps_prefix.
  destruct (startswith line (lit "Electronics")) eqn:Hline.
  - unfold target_patterns. simpl.
    destruct (re_match_anchored (lit "Electronics") (lit "^Electronics") line)
      as [-> _]; [done|].
    change (tail (lit "^Electronics")) with (lit "Electronics").
    by rewrite Hline.
  - eapply match_patterns_none; [apply target_patterns_shape|done].
Qed.

Lemma match_patterns_once (patterns : list str) (line : str) (acc : list str) :
  match_patterns patterns line acc = acc
  ∨ match_patterns patterns line acc = acc ++ [line].
Proof.
  induction patterns as [|p ps IH]; simpl; [by left|].
  destruct (re_match p line); [by right|done].
Qed.

Lemma existsb_re_match_prefix (line : str) :
  existsb (λ pattern, re_match pattern line) target_patterns = keeps_prefix line.
Proof.
  unfold keeps_prefix.
  destruct (startswith line (lit "Electronics")) eqn:Hline.
  - unfold target_patterns. simpl.
    destruct (re_match_anchored (lit "Electronics") (lit "^Electronics") line)
      as [-> _]; [done|].
    change (tail (lit "^Electronics")) with (lit "Electronics").
    by rewrite Hline.
  - pose proof target_patterns_shape as Hall.
    induction target_patterns as [|p ps IH]; [done|].
    simpl in *. apply andb_true_iff in Hall as [Hp Hps].
    destruct (re_match_anchored (lit "Electronics") p line Hp) as [_ Himp].
    destruct (re_match p line); [|by apply IH].
    rewrite Himp in Hline; done.
Qed.

Lemma keeps_prefix_line (line : str) :
  keeps_prefix line = true →
  str_bool line = true ∧ startswith line (lit "#") = false.
Proof.
  destruct line as [|c line]; [done|]. unfold keeps_prefix. simpl.
  rewrite andb_true_iff, N.eqb_eq. intros [-> _]. done.
Qed.

Lemma filter_line_prefix (acc : list str) (line : str) :
  filter_line acc line
  = if keeps_prefix (strip line) then acc ++ [strip line] else acc.
Proof.
  unfold filter_line. cbv zeta. rewrite match_patterns_prefix.
  destruct (keeps_prefix (strip line)) eqn:Hk.
  - apply keeps_prefix_line in Hk as [-> ->]. done.
  - by destruct (_ && _).
Qed.

Lemma fold_filter_line (lines : list str) (acc : list str) :
  fold_left filter_line lines acc
  = acc ++ filter (λ line, keeps_prefix line) (strip <$> lines).
Proof.
  revert acc. induction lines as [|l lines IH]; intros acc; simpl.
  - by rewrite app_nil_r.
  - rewrite IH, filter_line_prefix, filter_cons.
    destruct (keeps_prefix (strip l)) eqn:Hk.
    + rewrite decide_True by done. by rewrite <- app_assoc.
    + rewrite decide_False; [done|]. by intros [].
Qed.

Lemma filter_lines_prefix (content : str) :
  filter_lines content = filter_by_prefix content.
Proof. unfold filter_lines, filter_by_prefix. cbv zeta. by rewrite fold_filter_line. Qed.

Lemma filter_lines_empty : filter_lines [] = [].
Proof. reflexivity. Qed.

(** ** The padding *)

Lemma additional_categories_NoDup : NoDup additional_categories.
Proof. apply (bool_decide_unpack (NoDup additional_categories)). vm_compute. exact I. Qed.

Lemma additional_categories_length : length additional_categories = 14%nat.
Proof. reflexivity. Qed.

Lemma filter_agree {A} (P1 P2 : A → Prop)
    `{!∀ x, Decision (P1 x), !∀ x, Decision (P2 x)} (l : list A) :
  (∀ x, x ∈ l → P1 x ↔ P2 x) → filter P1 l = filter P2 l.
Proof.
  induction l as [|a l IH]; intros Hiff; [done|].
  rewrite !filter_cons, IH by (intros x Hx; apply Hiff; by right).
  apply decide_ext, Hiff. by left.
Qed.

Lemma fold_add_category (adds acc : list str) :
  NoDup adds →
  fold_left add_category adds acc = acc ++ filter (λ c, c ∉ acc) adds.
Proof.
  revert acc. induction adds as [|c adds IH]; intros acc Hnd; simpl.
  - by rewrite app_nil_r.
  - apply NoDup_cons in Hnd as [Hc Hnd]. rewrite IH by done.
    unfold add_category. rewrite filter_cons.
    destruct (decide (c ∈ acc)) as [Hin|Hout].
    + by rewrite decide_False by tauto.
    + rewrite decide_True by done. rewrite <- app_assoc. simpl.
      do 2 f_equal. apply filter_agree.
      intros x Hx. rewrite elem_of_app, list_elem_of_singleton.
      split; [tauto|]. intros Hxa [?| ->]; done.
Qed.

Lemma pad_categories_short (l : list str) :
  (length l < 15)%nat →
  pad_categories l = l ++ filter (λ c, c ∉ l) additional_categories.
Proof.
  intros Hl. unfold pad_categories. rewrite decide_True by done.
  apply fold_add_category, additional_categories_NoDup.
Qed.

Lemma pad_categories_long (l : list str) :
  (15 ≤ length l)%nat → pad_categories l = l.
Proof. intros Hl. unfold pad_categories. by rewrite decide_False by lia. Qed.

Lemma pad_categories_NoDup (l : list str) : NoDup l → NoDup (pad_categories l).
Proof.
  intros Hl. destruct (decide (length l < 15)%nat) as [Hs|Hs].
  - rewrite pad_categories_short by done. apply NoDup_app. split; [done|].
    split.
    + intros x Hx Hf. apply list_elem_of_filter in Hf as [Hnot _]. done.
    + apply NoDup_filter, additional_categories_NoDup.
  - rewrite pad_categories_long by lia. done.
Qed.

(** ** The result of [extract_electronics_categories] *)

Lemma extract_nonempty (content : str) :
  content ≠ [] →
  extract_electronics_categories content
  = take 20 (list_sort (combined_categories content)).
Proof. by destruct content. Qed.

Lemma extract_Sorted (content : str) :
  Sorted str_le (extract_electronics_categories content).
Proof.
  unfold extract_electronics_categories.
  destruct (negb (str_bool content)); [constructor|].
  apply Sorted_take, list_sort_Sorted.
Qed.

Lemma extract_length (content : str) :
  (length (extract_electronics_categories content) ≤ 20)%nat.
Proof.
  unfold extract_electronics_categories.
  destruct (negb (str_bool content)); simpl; [lia|].
  rewrite length_take. lia.
Qed.

(** ** Runs of [main] *)

Lemma print_categories_files (categories : list str) (i : nat) (w : world) :
  files (exec (print_categories i categories) w) = files w.
Proof.
  revert i w. induction categories as [|c cs IH]; intros i w; [done|].
  unfold exec in *. simpl. unfold bind. simpl. by rewrite IH.
Qed.

Lemma main_fetch_raises (e : str) (disk : disk_reply) (w : world) :
  exec (main (NetRaises e) disk) w
  = {| stdout := stdout w
                 ++ [msg_fetching; lit "Error fetching taxonomy: " ++ e; msg_failed];
       files := files w |}.
Proof. unfold exec, main, bind. simpl. by rewrite <- !app_assoc. Qed.

Lemma main_empty_body (disk : disk_reply) (w : world) :
  exec (main (Body []) disk) w
  = {| stdout := stdout w ++ [msg_fetching; msg_failed]; files := files w |}.
Proof. unfold exec, main, bind. simpl. by rewrite <- !app_assoc. Qed.

Lemma main_writes (content : str) (w : world) :
  content ≠ [] →
  files (exec (main (Body content) WriteOk) w)
  = <[output_file := json_dumps (subset_data (extract_electronics_categories content))]>
      (files w).
Proof.
  intros Hc. destruct content as [|c content]; [done|].
  unfold exec, main, bind. cbn -[extract_electronics_categories json_dumps subset_data print_categories].
  match goal with |- context [print_categories ?i ?cs ?w'] =>
    pose proof (print_categories_files cs i w') as Hf end.
  unfold exec in Hf. rewrite Hf. done.
Qed.

Lemma main_writes_record (content : str) :
  content ≠ [] →
  writes_record content (extract_electronics_categories content).
Proof.
  intros Hc w. rewrite main_writes by done. apply lookup_insert_eq.
Qed.

(** * The claims *)

(** C1. For every fetched text (non-empty, so that [main] goes on to
    write), the record written to the output file has a [count] field equal
    to the number of entries of its [categories] field, and that list has
    at most 20 entries. *)
Theorem written_record_count_and_bound (content : str) :
  content ≠ [] →
  let categories := extract_electronics_categories content in
  let record := subset_data categories in
  writes_record content categories
  ∧ dict_get (lit "count") record = Some (JInt (Z.of_nat (length categories)))
  ∧ dict_get (lit "categories") record = Some (JList (JStr <$> categories))
  ∧ (length categories ≤ 20)%nat.
Proof.
  intros Hc categories record. split; [by apply main_writes_record|].
  split; [reflexivity|]. split; [reflexivity|]. apply extract_length.
Qed.

Lemma written_record_count_and_bound_witness :
  scenario_text ≠ []
  ∧ writes_record scenario_text (extract_electronics_categories scenario_text)
  ∧ (length (extract_electronics_categories scenario_text) ≤ 20)%nat.
Proof.
  assert (scenario_text ≠ []) as Hne by (vm_compute; discriminate).
  destruct (written_record_count_and_bound scenario_text Hne) as (Hw & _ & _ & Hl).
  exact (conj Hne (conj Hw Hl)).
Defined.

(** C2. For every fetched text, the categories of the written output are
    in non-decreasing code point order, and they are the first 20 entries
    (all of them when there are fewer) of the sorted arrangement of the
    combined list: the slice is taken after the sort. *)
Theorem categories_sorted_then_truncated (content : str) :
  content ≠ [] →
  let categories := extract_electronics_categories content in
  let sorted := list_sort (combined_categories content) in
  writes_record content categories
  ∧ Sorted str_le categories
  ∧ categories = take 20 sorted
  ∧ Sorted str_le sorted
  ∧ sorted ≡ₚ combined_categories content
  ∧ length categories = min 20 (length (combined_categories content)).
Proof.
  intros Hc categories sorted.
  split; [by apply main_writes_record|].
  split; [apply extract_Sorted|].
  assert (categories = take 20 sorted) as Heq by by apply extract_nonempty.
  split; [done|]. split; [apply list_sort_Sorted|].
  split; [apply list_sort_Permutation|].
  rewrite Heq, length_take. unfold sorted.
  by rewrite (Permutation_length (list_sort_Permutation _)).
Qed.

Lemma categories_sorted_then_truncated_witness :
  long_text ≠ []
  ∧ Sorted str_le (extract_electronics_categories long_text)
  ∧ extract_electronics_categories long_text
    = take 20 (list_sort (combined_categories long_text)).
Proof.
  assert (long_text ≠ []) as Hne by (vm_compute; discriminate).
  destruct (categories_sorted_then_truncated long_text Hne) as (_ & Hs & Ht & _).
  exact (conj Hne (conj Hs Ht)).
Defined.

(** C3. When fewer than 15 lines survive the filter, the combined list is
    the filtered list followed by the fallback entries that the filtered
    list does not hold, in the order of the fallback list; so every one of
    the 14 fallback entries is in the combined list, whose length lies
    between the filtered length and the filtered length plus 14. The
    combined list is the one the function sorts and cuts (on the empty
    text the function returns before its first loop). *)
Theorem padding_adds_missing_fallbacks (content : str) :
  (length (filter_lines content) < 15)%nat →
  let filtered := filter_lines content in
  let combined := combined_categories content in
  combined = filtered ++ filter (λ c, c ∉ filtered) additional_categories
  ∧ (∀ c, c ∈ additional_categories → c ∉ filtered → c ∈ drop (length filtered) combined)
  ∧ (∀ c, c ∈ additional_categories → c ∈ combined)
  ∧ (length filtered ≤ length combined ≤ length filtered + 14)%nat
  ∧ (content ≠ [] →
     extract_electronics_categories content = take 20 (list_sort combined)).
Proof.
  intros Hshort filtered combined.
  assert (combined = filtered ++ filter (λ c, c ∉ filtered) additional_categories)
    as Heq by by apply pad_categories_short.
  split; [done|]. split; [|split; [|split]].
  - intros c Hc Hout. rewrite Heq, drop_app_length. by apply list_elem_of_filter.
  - intros c Hc. rewrite Heq. apply elem_of_app.
    destruct (decide (c ∈ filtered)); [by left|right].
    by apply list_elem_of_filter.
  - rewrite Heq, length_app.
    pose proof (length_filter (λ c, c ∉ filtered) additional_categories) as Hf.
    rewrite additional_categories_length in Hf. lia.
  - apply extract_nonempty.
Qed.

Lemma padding_adds_missing_fallbacks_witness :
  (length (filter_lines scenario_text) < 15)%nat
  ∧ (∀ c, c ∈ additional_categories → c ∈ combined_categories scenario_text).
Proof.
  assert (length (filter_lines scenario_text) < 15)%nat as Hs
    by (vm_compute; lia).
  destruct (padding_adds_missing_fallbacks scenario_text Hs)
    as (_ & _ & Hin & _ & _).
  exact (conj Hs Hin).
Defined.

(** C4. When at least 15 lines survive the filter, the fallback list is
    left aside: the combined list is the filtered list, and the result is
    the filtered list sorted and cut to its first 20 entries. Sorted means:
    the list the slice is taken from is in non-decreasing code point order
    and is a rearrangement of the filtered list, so the result is in that
    order too and has 20 entries, or all of them when there are fewer. *)
Theorem enough_lines_skip_fallback (content : str) :
  (15 ≤ length (filter_lines content))%nat →
  let filtered := filter_lines content in
  let sorted := list_sort filtered in
  combined_categories content = filtered
  ∧ extract_electronics_categories content = take 20 sorted
  ∧ Sorted str_le sorted
  ∧ sorted ≡ₚ filtered
  ∧ Sorted str_le (extract_electronics_categories content)
  ∧ length (extract_electronics_categories content) = min 20 (length filtered)
  ∧ (∀ c, c ∈ extract_electronics_categories content → c ∈ filtered)
  ∧ writes_record content (take 20 sorted).
Proof.
  intros Hlong filtered sorted.
  assert (content ≠ []) as Hne.
  { intros Heq. unfold filtered in Hlong. rewrite Heq, filter_lines_empty in Hlong.
    simpl in Hlong. lia. }
  assert (combined_categories content = filtered) as Heq
    by by apply pad_categories_long.
  split; [done|].
  assert (extract_electronics_categories content = take 20 sorted) as Hex
    by (by rewrite extract_nonempty, Heq).
  assert (sorted ≡ₚ filtered) as Hperm by apply list_sort_Permutation.
  split; [done|]. split; [apply list_sort_Sorted|]. split; [done|].
  split; [apply extract_Sorted|].
  split; [by rewrite Hex, length_take, (Permutation_length Hperm)|].
  split; [|rewrite <- Hex; by apply main_writes_record].
  intros c Hc. rewrite Hex in Hc. rewrite <- Hperm.
  exact (elem_of_sublist _ _ _ Hc (sublist_take _ 20)).
Qed.

Lemma enough_lines_skip_fallback_witness :
  (15 ≤ length (filter_lines long_text))%nat
  ∧ combined_categories long_text = filter_lines long_text
  ∧ Sorted str_le (extract_electronics_categories long_text)
  ∧ list_sort (filter_lines long_text) ≡ₚ filter_lines long_text
  ∧ head (filter_lines long_text) = Some (lit "Electronics > p")
  ∧ head (extract_electronics_categories long_text) = Some (lit "Electronics > a").
Proof.
  assert (15 ≤ length (filter_lines long_text))%nat as Hl by (vm_compute; lia).
  destruct (enough_lines_skip_fallback long_text Hl)
    as (Hc & _ & _ & Hp & Hs & _).
  exact (conj Hl (conj Hc (conj Hs (conj Hp (conj eq_refl eq_refl))))).
Defined.

(** C5, as the specification has it, fails: on the text of the scenario
    the fallback entry "Electronics > Audio > Headphones" is a line of the
    text, hence in the filtered list, and is skipped; the combined list is
    not the filtered list followed by all 14 fallback entries, and has 15
    entries, not 16. *)
Lemma scenario_headphones_already_present :
  lit "Electronics > Audio > Headphones" ∈ additional_categories
  ∧ lit "Electronics > Audio > Headphones" ∈ filter_lines scenario_text
  ∧ combined_categories scenario_text
    ≠ filter_lines scenario_text ++ additional_categories
  ∧ length (combined_categories scenario_text) = 15%nat.
Proof.
  split; [vm_compute; by left|].
  split; [vm_compute; right; by left|].
  split; [|reflexivity].
  intros H. apply (f_equal length) in H. vm_compute in H. discriminate.
Qed.

(** C5, amended. On the text of the scenario the filtered list is
    ["Electronics > Audio"; "Electronics > Audio > Headphones"]; since it
    is shorter than 15, the fallback entries are appended except the first
    one, "Electronics > Audio > Headphones", which is already there: 13 are
    appended. The result has 15 entries, in ascending order, and [count]
    is 15. *)
Theorem scenario_appends_thirteen :
  filter_lines scenario_text
  = [lit "Electronics > Audio"; lit "Electronics > Audio > Headphones"]
  ∧ combined_categories scenario_text
    = filter_lines scenario_text ++ tail additional_categories
  ∧ head additional_categories = Some (lit "Electronics > Audio > Headphones")
  ∧ extract_electronics_categories scenario_text
    = [ lit "Electronics > Audio";
        lit "Electronics > Audio > Headphones";
        lit "Electronics > Audio > Speakers";
        lit "Electronics > Cameras > Digital Cameras";
        lit "Electronics > Communications > Telephony > Mobile Phone Accessories";
        lit "Electronics > Communications > Telephony > Mobile Phones";
        lit "Electronics > Computers > Desktop Computers";
        lit "Electronics > Computers > Laptops";
        lit "Electronics > Computers > Tablets";
        lit "Electronics > Gaming > Video Game Consoles";
        lit "Electronics > Home Audio > Home Theater Systems";
        lit "Electronics > Mobile Phones > Smartphones";
        lit "Electronics > Video > Televisions";
        lit "Electronics > Wearables > Fitness Trackers";
        lit "Electronics > Wearables > Smartwatches" ]
  ∧ (length (extract_electronics_categories scenario_text) ≤ 20)%nat
  ∧ dict_get (lit "count")
      (subset_data (extract_electronics_categories scenario_text))
    = Some (JInt 15)
  ∧ writes_record scenario_text (extract_electronics_categories scenario_text).
Proof.
  split; [by vm_compute|]. split; [by vm_compute|]. split; [done|].
  split; [by vm_compute|]. split; [apply extract_length|].
  split; [by vm_compute|].
  apply main_writes_record. vm_compute. discriminate.
Qed.

(** C6, as the specification has it, fails: a line that comes twice in the
    text comes twice in the result. *)
Lemma repeated_line_stays_repeated :
  ¬ NoDup (extract_electronics_categories repeated_text)
  ∧ take 2 (extract_electronics_categories repeated_text)
    = [lit "Electronics"; lit "Electronics"]
  ∧ writes_record repeated_text (extract_electronics_categories repeated_text).
Proof.
  assert (take 2 (extract_electronics_categories repeated_text)
          = [lit "Electronics"; lit "Electronics"]) as Ht by by vm_compute.
  split; [|split; [done|]].
  - intros Hnd. pose proof (sublist_NoDup _ _ Hnd (sublist_take _ 2)) as Hfirst.
    rewrite Ht in Hfirst. apply NoDup_cons in Hfirst as [Hnot _].
    apply Hnot. by left.
  - apply main_writes_record. vm_compute. discriminate.
Qed.

(** C6, amended. The script removes no duplicate among the lines it keeps:
    it only leaves out a fallback entry that is already in the list. So
    the padding adds no duplicate, and the categories of the written output
    are free of duplicates whenever the kept lines are pairwise different. *)
Theorem distinct_lines_give_distinct_categories (content : str) :
  NoDup (filter_lines content) →
  NoDup (combined_categories content)
  ∧ NoDup (extract_electronics_categories content).
Proof.
  intros Hnd.
  assert (NoDup (combined_categories content)) as Hc
    by by apply pad_categories_NoDup.
  split; [done|]. unfold extract_electronics_categories.
  destruct (negb (str_bool content)); [constructor|].
  apply sublist_NoDup with (list_sort (combined_categories content));
    [|apply sublist_take].
  by rewrite list_sort_Permutation.
Qed.

Lemma distinct_lines_give_distinct_categories_witness :
  NoDup (filter_lines scenario_text)
  ∧ NoDup (extract_electronics_categories scenario_text).
Proof.
  assert (NoDup (filter_lines scenario_text)) as Hnd.
  { apply (bool_decide_unpack (NoDup (filter_lines scenario_text))).
    vm_compute. exact I. }
  destruct (distinct_lines_give_distinct_categories scenario_text Hnd) as [_ Hout].
  exact (conj Hnd Hout).
Defined.

(** C7. When the fetch raises, the run prints the error and the failure
    line and stops: the file system is the one it started with and nothing
    else is printed, so no category is computed or shown. When the fetch
    gives a text and the write goes through, the file system changes at
    [output_file] and nowhere else: one file is written, holding the dump
    of the record. *)
Theorem fetch_error_stops_before_write :
  (∀ (e : str) (disk : disk_reply) (w : world),
     exec (main (NetRaises e) disk) w
     = {| stdout := stdout w
                    ++ [msg_fetching; lit "Error fetching taxonomy: " ++ e; msg_failed];
          files := files w |})
  ∧ (∀ (content : str) (w : world),
       content ≠ [] →
       files (exec (main (Body content) WriteOk) w)
       = <[output_file := json_dumps (subset_data (extract_electronics_categories content))]>
           (files w)
       ∧ (∀ path, path ≠ output_file →
            files (exec (main (Body content) WriteOk) w) !! path = files w !! path)).
Proof.
  split; [apply main_fetch_raises|].
  intros content w Hc. rewrite main_writes by done. split; [done|].
  intros path Hp. by rewrite lookup_insert_ne.
Qed.

Lemma fetch_error_stops_before_write_witness :
  files (exec (main (NetRaises (lit "timed out")) WriteOk) stale) = files stale
  ∧ scenario_text ≠ []
  ∧ files (exec (main (Body scenario_text) WriteOk) fresh)
    = {[ output_file :=
           json_dumps (subset_data (extract_electronics_categories scenario_text)) ]}.
Proof.
  destruct fetch_error_stops_before_write as [Hfail Hok].
  assert (scenario_text ≠ []) as Hne by (vm_compute; discriminate).
  split; [by rewrite Hfail|]. split; [done|].
  destruct (Hok scenario_text fresh Hne) as [-> _]. reflexivity.
Defined.

(** C8. The written output is a function of the fetched text alone: two
    runs on the same text, whatever was printed before and whatever the
    file system held, leave the same text in [output_file]; it is the dump
    of a record whose [source], [description] and [lastUpdated] fields are
    the literals of the script, [lastUpdated] being "2024-01-15". *)
Theorem output_determined_by_text (content : str) (w1 w2 : world) :
  content ≠ [] →
  let record := subset_data (extract_electronics_categories content) in
  files (exec (main (Body content) WriteOk) w1) !! output_file
  = files (exec (main (Body content) WriteOk) w2) !! output_file
  ∧ files (exec (main (Body content) WriteOk) w1) !! output_file
    = Some (json_dumps record)
  ∧ dict_get (lit "lastUpdated") record = Some (JStr (lit "2024-01-15"))
  ∧ dict_get (lit "source") record = Some (JStr (lit url))
  ∧ dict_get (lit "description") record
    = Some (JStr (lit "Curated subset of Google Product Taxonomy for electronics recommerce")).
Proof.
  intros Hc record. pose proof (main_writes_record content Hc) as Hw.
  split; [by rewrite !Hw|]. split; [apply Hw|]. by repeat split.
Qed.

Lemma output_determined_by_text_witness :
  scenario_text ≠ []
  ∧ files (exec (main (Body scenario_text) WriteOk) fresh) !! output_file
    = files (exec (main (Body scenario_text) WriteOk) stale) !! output_file.
Proof.
  assert (scenario_text ≠ []) as Hne by (vm_compute; discriminate).
  destruct (output_determined_by_text scenario_text fresh stale Hne) as [Heq _].
  exact (conj Hne Heq).
Defined.

(** C9. The test against the 11 patterns is the test "the line starts with
    Electronics": every pattern is [^], then "Electronics", then literal
    characters; some pattern matches a line exactly when the line starts
    with "Electronics"; the inner loop appends the line once in that case
    and not at all otherwise; and the filter of the script is the filter by
    prefix over the stripped lines (a line that starts with "Electronics"
    is neither empty nor a comment). *)
Theorem patterns_are_one_prefix_test :
  forallb (anchored_under (lit "Electronics")) target_patterns = true
  ∧ (∀ line : str,
       existsb (λ pattern, re_match pattern line) target_patterns
       = startswith line (lit "Electronics"))
  ∧ (∀ (line : str) (acc : list str),
       match_patterns target_patterns line acc
       = if startswith line (lit "Electronics") then acc ++ [line] else acc)
  ∧ (∀ (line : str) (acc : list str),
       filter_line acc line
       = if startswith (strip line) (lit "Electronics")
         then acc ++ [strip line] else acc)
  ∧ (∀ content : str, filter_lines content = filter_by_prefix content).
Proof.
  split; [apply target_patterns_shape|].
  split; [apply existsb_re_match_prefix|].
  split; [apply match_patterns_prefix|].
  split; [intros; apply filter_line_prefix|apply filter_lines_prefix].
Qed.

(** C10. A fetch that succeeds with an empty body (the only falsy text) is
    handled as a failed fetch: the run prints the failure line and stops,
    the file system is untouched and nothing is computed from the fallback
    list. The only difference with a fetch that raises is the line
    [fetch_taxonomy] itself prints for the exception. *)
Theorem empty_body_is_reported_as_failure (content : str) (disk : disk_reply)
    (w : world) :
  str_bool content = false →
  content = []
  ∧ extract_electronics_categories content = []
  ∧ exec (main (Body content) disk) w
    = {| stdout := stdout w ++ [msg_fetching; msg_failed]; files := files w |}
  ∧ files (exec (main (Body content) disk) w) !! output_file
    = files w !! output_file
  ∧ (∀ e : str,
       files (exec (main (NetRaises e) disk) w)
       = files (exec (main (Body content) disk) w)
       ∧ stdout (exec (main (NetRaises e) disk) w)
         = stdout w ++ [msg_fetching; lit "Error fetching taxonomy: " ++ e; msg_failed]).
Proof.
  intros Hfalsy. destruct content as [|c content]; [|done].
  split; [done|]. split; [done|].
  rewrite main_empty_body. split; [done|]. split; [done|].
  intros e. by rewrite main_fetch_raises.
Qed.

Lemma empty_body_is_reported_as_failure_witness :
  str_bool [] = false
  ∧ exec (main (Body []) WriteOk) fresh
    = {| stdout := [msg_fetching; msg_failed]; files := ∅ |}.
Proof.
  destruct (empty_body_is_reported_as_failure [] WriteOk fresh eq_refl)
    as (_ & _ & Hrun & _).
  exact (conj eq_refl Hrun).
Defined.

(** * Further properties of the script *)

(** ** [strip] and [split] *)

Lemma lstrip_decompose (s : str) :
  ∃ ws, s = ws ++ lstrip s ∧ Forall (λ c, isspace c = true) ws.
Proof.
  induction s as [|c s (ws & Hs & Hws)]; [by exists []|]. simpl.
  destruct (isspace c) eqn:Hc; [|by exists []].
  exists (c :: ws). split; [by rewrite <- app_comm_cons, <- Hs|by constructor].
Qed.

Lemma rstrip_decompose (s : str) :
  ∃ ws, s = rstrip s ++ ws ∧ Forall (λ c, isspace c = true) ws.
Proof.
  destruct (lstrip_decompose (rev s)) as (ws & Hs & Hws).
  exists (rev ws). split.
  - unfold rstrip. rewrite <- rev_app_distr, <- Hs. by rewrite rev_involutive.
  - apply Forall_forall. intros c Hc. rewrite Forall_forall in Hws.
    apply Hws. apply list_elem_of_In. apply in_rev, list_elem_of_In, Hc.
Qed.

Lemma lstrip_head (s : str) (c : N) (r : str) :
  lstrip s = c :: r → isspace c = false.
Proof.
  induction s as [|d s IH]; simpl; [done|].
  destruct (isspace d) eqn:Hd; [done|]. by intros [= <- _].
Qed.


Lemma lstrip_idem (s : str) : lstrip (lstrip s) = lstrip s.
Proof.
  destruct (lstrip s) as [|c r] eqn:Hs; [done|].
  apply lstrip_head in Hs. simpl. by rewrite Hs.
Qed.

Lemma rstrip_snoc (s : str) (c : N) :
  isspace c = true → rstrip (s ++ [c]) = rstrip s.
Proof. intros Hc. unfold rstrip. rewrite rev_unit. simpl. by rewrite Hc. Qed.

Lemma lstrip_snoc (s : str) (c : N) :
  isspace c = true →
  lstrip (s ++ [c]) = match lstrip s with [] => [] | _ :: _ => lstrip s ++ [c] end.
Proof.
  intros Hc. induction s as [|d s IH]; simpl; [by rewrite Hc|].
  destruct (isspace d); [done|]. done.
Qed.

Lemma strip_cons_space (s : str) (c : N) :
  isspace c = true → strip (c :: s) = strip s.
Proof. intros Hc. unfold strip. simpl. by rewrite Hc. Qed.

Lemma strip_snoc_space (s : str) (c : N) :
  isspace c = true → strip (s ++ [c]) = strip s.
Proof.
  intros Hc. unfold strip. rewrite lstrip_snoc by done.
  destruct (lstrip s) as [|d r]; [done|]. by rewrite rstrip_snoc.
Qed.


Lemma lstrip_rstrip (s : str) : lstrip s = s → lstrip (rstrip s) = rstrip s.
Proof.
  intros Hs. destruct (rstrip_decompose s) as (ws & Hdec & _).
  destruct (rstrip s) as [|c r] eqn:Hr; [done|].
  rewrite Hdec in Hs. simpl in Hs.
  destruct (isspace c) eqn:Hc; simpl; rewrite Hc; [|done].
  exfalso. destruct (lstrip_decompose (r ++ ws)) as (ws' & Hdec' & _).
  rewrite Hs in Hdec'. apply (f_equal length) in Hdec'.
  rewrite !length_app in Hdec'. simpl in Hdec'.
  rewrite ?length_app in Hdec'. lia.
Qed.

Lemma strip_idem (s : str) : strip (strip s) = strip s.
Proof.
  unfold strip. rewrite (lstrip_rstrip (lstrip s)) by apply lstrip_idem.
  unfold rstrip. by rewrite rev_involutive, lstrip_idem.
Qed.

Lemma split_nonempty (sep : N) (s : str) : split sep s ≠ [].
Proof.
  induction s as [|c s IH]; simpl; [done|].
  destruct (c =? sep); [done|]. by destruct (split sep s).
Qed.

Lemma split_app_sep (sep : N) (a b : str) :
  split sep (a ++ sep :: b) = split sep a ++ split sep b.
Proof.
  induction a as [|c a IH]; simpl.
  - by rewrite N.eqb_refl.
  - rewrite IH. destruct (c =? sep); [done|].
    pose proof (split_nonempty sep a) as Hne.
    by destruct (split sep a).
Qed.

Lemma split_snoc (sep : N) (s : str) (c : N) :
  c ≠ sep →
  ∃ init last, split sep s = init ++ [last]
               ∧ split sep (s ++ [c]) = init ++ [last ++ [c]].
Proof.
  intros Hc. apply N.eqb_neq in Hc.
  induction s as [|d s (init & last & Hs & Hsc)]; simpl.
  - rewrite Hc. by exists [], [].
  - rewrite Hs, Hsc. destruct (d =? sep).
    + by exists ([] :: init), last.
    + destruct init as [|i init]; simpl.
      * by exists [], (d :: last).
      * by exists ((d :: i) :: init), last.
Qed.

(** The stripped lines of a text that start with "Electronics" are not
    changed by white space around the text. *)
Lemma kept_cons_space (t : str) (c : N) :
  isspace c = true → filter_by_prefix_lines (c :: t) = filter_by_prefix_lines t.
Proof.
  intros Hc. unfold filter_by_prefix_lines. simpl.
  destruct (c =? 10) eqn:E.
  - rewrite fmap_cons, filter_cons. by rewrite decide_False by (by intros []).
  - pose proof (split_nonempty 10 t) as Hne.
    destruct (split 10 t) as [|cur rest]; [done|].
    rewrite !fmap_cons. by rewrite strip_cons_space.
Qed.

Lemma kept_snoc_space (t : str) (c : N) :
  isspace c = true → filter_by_prefix_lines (t ++ [c]) = filter_by_prefix_lines t.
Proof.
  intros Hc. unfold filter_by_prefix_lines.
  destruct (decide (c = 10)) as [->|Hne].
  - rewrite split_app_sep, fmap_app, filter_app. simpl.
    rewrite filter_cons, decide_False by (by intros []).
    by rewrite filter_nil, app_nil_r.
  - destruct (split_snoc 10 t c Hne) as (init & last & -> & ->).
    rewrite !fmap_app, !filter_app. simpl. by rewrite strip_snoc_space.
Qed.

Lemma kept_strip (t : str) :
  filter_by_prefix_lines (strip t) = filter_by_prefix_lines t.
Proof.
  unfold strip.
  destruct (rstrip_decompose (lstrip t)) as (ws & Hdec & Hws).
  transitivity (filter_by_prefix_lines (lstrip t)).
  - rewrite Hdec at 2. clear Hdec. generalize (rstrip (lstrip t)). intros u.
    induction ws as [|c ws IH] using rev_ind; [by rewrite app_nil_r|].
    apply Forall_app in Hws as [Hws Hc]. apply Forall_cons in Hc as [Hc _].
    rewrite app_assoc, kept_snoc_space by done. by apply IH.
  - clear. induction t as [|c t IH]; simpl; [done|].
    destruct (isspace c) eqn:Hc; [|done]. by rewrite kept_cons_space.
Qed.

Lemma filter_lines_kept (content : str) :
  filter_lines content = filter_by_prefix_lines content.
Proof. rewrite filter_lines_prefix. apply kept_strip. Qed.

(** ** Membership in the lists of [extract_electronics_categories] *)

Lemma elem_of_pad_categories (l : list str) (c : str) :
  c ∈ pad_categories l ↔
  c ∈ l ∨ (c ∈ additional_categories ∧ (c ∉ l) ∧ (length l < 15)%nat).
Proof.
  destruct (decide (length l < 15)%nat) as [Hs|Hs].
  - rewrite pad_categories_short, elem_of_app, list_elem_of_filter by done.
    tauto.
  - rewrite pad_categories_long by lia. split; [by left|].
    intros [Hc|(_ & _ & Hlt)]; [done|lia].
Qed.

Lemma elem_of_extract (content c : str) :
  c ∈ extract_electronics_categories content → c ∈ combined_categories content.
Proof.
  unfold extract_electronics_categories.
  destruct (negb (str_bool content)); [by intros ?%elem_of_nil|].
  intros Hc.
  pose proof (elem_of_sublist _ _ _ Hc (sublist_take _ 20)) as Hs.
  by rewrite list_sort_Permutation in Hs.
Qed.

Lemma combined_length_lower (content : str) :
  (14 ≤ length (combined_categories content))%nat.
Proof.
  unfold combined_categories.
  destruct (decide (length (filter_lines content) < 15)%nat) as [Hs|Hs].
  - rewrite <- additional_categories_length. apply submseteq_length.
    apply NoDup_submseteq; [apply additional_categories_NoDup|].
    intros c Hc. apply elem_of_pad_categories.
    destruct (decide (c ∈ filter_lines content)); [by left|by right].
  - rewrite pad_categories_long by lia. lia.
Qed.

Lemma pad_categories_Permutation (l1 l2 : list str) :
  l1 ≡ₚ l2 → pad_categories l1 ≡ₚ pad_categories l2.
Proof.
  intros Hp. pose proof (Permutation_length Hp) as Hlen.
  destruct (decide (length l1 < 15)%nat) as [Hs|Hs].
  - rewrite !pad_categories_short by lia.
    rewrite (filter_agree (λ c, c ∉ l1) (λ c, c ∉ l2)).
    + by rewrite Hp.
    + intros x _. by rewrite Hp.
  - by rewrite !pad_categories_long by lia.
Qed.

Lemma fallback_entries_shape :
  Forall (λ c : str, keeps_prefix c = true ∧ strip c = c) additional_categories.
Proof. repeat constructor. Qed.

Lemma filter_lines_shape (content : str) :
  Forall (λ c : str, keeps_prefix c = true ∧ strip c = c) (filter_lines content).
Proof.
  rewrite filter_lines_prefix. apply Forall_forall. intros c Hc.
  apply list_elem_of_filter in Hc as [Hk Hc].
  apply list_elem_of_fmap in Hc as (line & -> & _).
  split; [by apply Is_true_eq_true|apply strip_idem].
Qed.

(** ** What [extract_electronics_categories] returns *)

(** X1. On a non-empty text the result has between 14 and 20 entries: the
    padding brings in every fallback entry that is missing, and there are
    14 of them (the bound of the source comment, 15, is the threshold of
    the padding, not the size it reaches). *)
Theorem extract_between_14_and_20 (content : str) :
  content ≠ [] →
  (14 ≤ length (extract_electronics_categories content) ≤ 20)%nat.
Proof.
  intros Hc. split; [|apply extract_length].
  rewrite extract_nonempty, length_take by done.
  rewrite (Permutation_length (list_sort_Permutation _)).
  pose proof (combined_length_lower content). lia.
Qed.

Lemma extract_between_14_and_20_witness :
  blank_text ≠ []
  ∧ (14 ≤ length (extract_electronics_categories blank_text) ≤ 20)%nat
  ∧ length (extract_electronics_categories blank_text) = 14%nat.
Proof.
  assert (blank_text ≠ []) as Hne by discriminate.
  exact (conj Hne (conj (extract_between_14_and_20 blank_text Hne) eq_refl)).
Defined.

(** X2. Every entry of the result starts with "Electronics" and has no
    white space around it, whatever the text: the kept lines are stripped
    and matched on that prefix, and the fallback entries have that shape. *)
Theorem extract_entries_shape (content : str) :
  Forall (λ c : str, startswith c (lit "Electronics") = true ∧ strip c = c ∧ c ≠ [])
    (extract_electronics_categories content).
Proof.
  apply Forall_forall. intros c Hc. apply elem_of_extract in Hc.
  assert (keeps_prefix c = true ∧ strip c = c) as [Hk Hs].
  { apply elem_of_pad_categories in Hc as [Hc|(Hc & _)].
    - pose proof (filter_lines_shape content) as Hf.
      rewrite Forall_forall in Hf. by apply Hf.
    - pose proof fallback_entries_shape as Hf.
      rewrite Forall_forall in Hf. by apply Hf. }
  split; [done|]. split; [done|]. by intros ->.
Qed.

(** X3. Nothing is made up: an entry of the result is the stripped form
    of a line of the fetched text, or one of the 14 fallback entries, and
    a fallback entry can only come in when fewer than 15 lines were kept. *)
Theorem extract_entries_origin (content c : str) :
  c ∈ extract_electronics_categories content →
  (∃ line, line ∈ split 10 content ∧ c = strip line)
  ∨ (c ∈ additional_categories ∧ (length (filter_lines content) < 15)%nat).
Proof.
  intros Hc. apply elem_of_extract, elem_of_pad_categories in Hc.
  destruct Hc as [Hc|(Hc & _ & Hlen)]; [left|by right].
  rewrite filter_lines_kept in Hc.
  apply list_elem_of_filter in Hc as [_ Hc].
  apply list_elem_of_fmap in Hc as (line & -> & Hline). by exists line.
Qed.

Lemma extract_entries_origin_witness :
  lit "Electronics > Audio" ∈ extract_electronics_categories scenario_text
  ∧ ((∃ line, line ∈ split 10 scenario_text ∧ lit "Electronics > Audio" = strip line)
     ∨ (lit "Electronics > Audio" ∈ additional_categories
        ∧ (length (filter_lines scenario_text) < 15)%nat)).
Proof.
  assert (lit "Electronics > Audio" ∈ extract_electronics_categories scenario_text)
    as Hin by (vm_compute; by left).
  exact (conj Hin (extract_entries_origin scenario_text _ Hin)).
Defined.

(** X4. When the combined list has at most 20 entries the slice drops
    nothing: the result is a rearrangement of the combined list, so every
    kept line and every fallback entry that was added is in it. *)
Theorem extract_keeps_all_when_short (content : str) :
  content ≠ [] →
  (length (combined_categories content) ≤ 20)%nat →
  extract_electronics_categories content ≡ₚ combined_categories content
  ∧ (∀ c, c ∈ filter_lines content → c ∈ extract_electronics_categories content).
Proof.
  intros Hne Hlen.
  assert (extract_electronics_categories content ≡ₚ combined_categories content)
    as Hp.
  { rewrite extract_nonempty by done.
    rewrite take_ge by (by rewrite (Permutation_length (list_sort_Permutation _))).
    apply list_sort_Permutation. }
  split; [done|]. intros c Hc. rewrite Hp.
  apply elem_of_pad_categories. by left.
Qed.

Lemma extract_keeps_all_when_short_witness :
  scenario_text ≠ []
  ∧ (length (combined_categories scenario_text) ≤ 20)%nat
  ∧ extract_electronics_categories scenario_text ≡ₚ combined_categories scenario_text.
Proof.
  assert (scenario_text ≠ []) as Hne by (vm_compute; discriminate).
  assert (length (combined_categories scenario_text) ≤ 20)%nat as Hlen
    by (vm_compute; lia).
  destruct (extract_keeps_all_when_short scenario_text Hne Hlen) as [Hp _].
  exact (conj Hne (conj Hlen Hp)).
Defined.

(** X5. When the slice does drop entries, it drops the largest ones: an
    entry of the combined list that is not in the result is not below any
    entry of the result. *)
Theorem extract_drops_largest (content x y : str) :
  content ≠ [] →
  x ∈ extract_electronics_categories content →
  y ∈ combined_categories content →
  y ∉ extract_electronics_categories content →
  str_le x y ∧ x ≠ y.
Proof.
  intros Hne Hx Hy Hout. rewrite extract_nonempty in Hx, Hout by done.
  split; [|by intros ->].
  pose proof (list_sort_Sorted (combined_categories content)) as Hs.
  apply Sorted_StronglySorted in Hs; [|apply _].
  rewrite <- (take_drop 20 (list_sort (combined_categories content))) in Hs.
  apply (StronglySorted_app_1_elem_of _ _ _ x y Hs Hx).
  rewrite <- (list_sort_Permutation (combined_categories content)) in Hy.
  rewrite <- (take_drop 20 (list_sort (combined_categories content))) in Hy.
  apply elem_of_app in Hy as [Hy|Hy]; done.
Qed.

Lemma extract_drops_largest_witness :
  wide_text ≠ []
  ∧ lit "Electronics > a" ∈ extract_electronics_categories wide_text
  ∧ lit "Electronics > v" ∈ combined_categories wide_text
  ∧ (lit "Electronics > v" ∉ extract_electronics_categories wide_text)
  ∧ str_le (lit "Electronics > a") (lit "Electronics > v").
Proof.
  assert (wide_text ≠ []) as Hne by (vm_compute; discriminate).
  assert (lit "Electronics > a" ∈ extract_electronics_categories wide_text) as Hx.
  { apply (bool_decide_unpack _). vm_compute. exact I. }
  assert (lit "Electronics > v" ∈ combined_categories wide_text) as Hy.
  { apply (bool_decide_unpack _). vm_compute. exact I. }
  assert (lit "Electronics > v" ∉ extract_electronics_categories wide_text) as Hout.
  { apply (bool_decide_unpack _). vm_compute. exact I. }
  destruct (extract_drops_largest wide_text _ _ Hne Hx Hy Hout) as [Hle _].
  exact (conj Hne (conj Hx (conj Hy (conj Hout Hle)))).
Defined.

(** X6. The order of the lines in the text does not matter: two non-empty
    texts whose kept lines are the same up to order give the same result. *)
Theorem extract_ignores_line_order (content1 content2 : str) :
  content1 ≠ [] → content2 ≠ [] →
  filter_lines content1 ≡ₚ filter_lines content2 →
  extract_electronics_categories content1 = extract_electronics_categories content2.
Proof.
  intros H1 H2 Hp. rewrite !extract_nonempty by done. f_equal.
  apply list_sort_unique; [apply list_sort_Sorted|].
  rewrite list_sort_Permutation. by apply pad_categories_Permutation.
Qed.

Lemma extract_ignores_line_order_witness :
  scenario_text ≠ [] ∧ swapped_text ≠ []
  ∧ filter_lines scenario_text ≡ₚ filter_lines swapped_text
  ∧ extract_electronics_categories scenario_text
    = extract_electronics_categories swapped_text.
Proof.
  assert (scenario_text ≠ []) as H1 by (vm_compute; discriminate).
  assert (swapped_text ≠ []) as H2 by (vm_compute; discriminate).
  assert (filter_lines scenario_text ≡ₚ filter_lines swapped_text) as Hp.
  { change (filter_lines scenario_text)
      with [lit "Electronics > Audio"; lit "Electronics > Audio > Headphones"].
    change (filter_lines swapped_text)
      with [lit "Electronics > Audio > Headphones"; lit "Electronics > Audio"].
    apply perm_swap. }
  exact (conj H1 (conj H2 (conj Hp
           (extract_ignores_line_order scenario_text swapped_text H1 H2 Hp)))).
Defined.




(** ** The rest of [main] *)

Lemma print_categories_stdout (categories : list str) (i : nat) (w : world) :
  stdout (exec (print_categories i categories) w)
  = stdout w
    ++ imap (λ j category, lit "  " ++ format_2d (i + j) ++ lit ". " ++ category)
         categories.
Proof.
  revert i w. induction categories as [|c cs IH]; intros i w.
  - simpl. by rewrite app_nil_r.
  - unfold exec in *. simpl. unfold bind. simpl. rewrite IH. simpl.
    rewrite <- app_assoc. simpl. rewrite Nat.add_0_r. do 2 f_equal.
    apply imap_ext. intros j x _. simpl. by rewrite Nat.add_succ_r.
Qed.

(** X9. When the write raises, [main] says so and stops: after the three
    progress lines it prints the error line with the text of the
    exception, none of the lines of a successful run, and the file system
    is as the failed write left it. *)
Theorem main_write_failure (content e : str) (left : option str) (w : world) :
  content ≠ [] →
  exec (main (Body content) (WriteRaises e left)) w
  = {| stdout := stdout w
                 ++ [ msg_fetching; msg_fetched;
                      msg_found (length (extract_electronics_categories content));
                      msg_write_error e ];
       files := match left with
                | None => files w
                | Some t => <[output_file := t]> (files w)
                end |}.
Proof.
  intros Hc. destruct content as [|c content]; [done|].
  unfold exec, main, bind.
  destruct left as [t|];
    cbn -[extract_electronics_categories json_dumps subset_data];
    by rewrite <- !app_assoc.
Qed.

Lemma main_write_failure_witness :
  scenario_text ≠ []
  ∧ exec (main (Body scenario_text) (WriteRaises (lit "No such file or directory") None)) stale
    = {| stdout := stdout stale
                   ++ [ msg_fetching; msg_fetched;
                        msg_found (length (extract_electronics_categories scenario_text));
                        msg_write_error (lit "No such file or directory") ];
         files := files stale |}.
Proof.
  assert (scenario_text ≠ []) as Hne by (vm_compute; discriminate).
  exact (conj Hne (main_write_failure scenario_text _ None stale Hne)).
Defined.

(** X10. Whatever the network and the disk answer, [main] leaves every
    file other than [output_file] as it was. *)
Theorem main_touches_output_file_only (net : net_reply) (disk : disk_reply)
    (w : world) (path : string) :
  path ≠ output_file →
  files (exec (main net disk) w) !! path = files w !! path.
Proof.
  intros Hp. destruct net as [content|e]; [|by rewrite main_fetch_raises].
  destruct content as [|c content]; [by rewrite main_empty_body|].
  destruct disk as [|e left].
  - rewrite main_writes by done. by rewrite lookup_insert_ne.
  - unfold exec, main, bind.
    destruct left as [t|];
      cbn -[extract_electronics_categories json_dumps subset_data]; [|done].
    by rewrite lookup_insert_ne.
Qed.

Lemma main_touches_output_file_only_witness :
  "README.md"%string ≠ output_file
  ∧ files (exec (main (Body scenario_text) WriteOk) stale) !! "README.md"%string
    = files stale !! "README.md"%string.
Proof.
  assert ("README.md"%string ≠ output_file) as Hp by discriminate.
  exact (conj Hp (main_touches_output_file_only _ _ stale _ Hp)).
Defined.

(** X11. A successful run prints six lines, then one line per category,
    numbered from 1 in the order of the result: 6 + n lines for n
    categories, the number of categories being the one in the third and
    the fifth line. *)
Theorem main_success_stdout (content : str) (w : world) :
  content ≠ [] →
  let categories := extract_electronics_categories content in
  stdout (exec (main (Body content) WriteOk) w)
  = stdout w
    ++ [ msg_fetching; msg_fetched; msg_found (length categories);
         msg_written; msg_total (length categories); msg_included ]
    ++ imap (λ i category, lit "  " ++ format_2d (S i) ++ lit ". " ++ category)
         categories.
Proof.
  intros Hc categories. destruct content as [|c content]; [done|].
  unfold exec, main, bind.
  cbn -[extract_electronics_categories json_dumps subset_data print_categories].
  match goal with |- context [print_categories ?i ?cs ?w'] =>
    pose proof (print_categories_stdout cs i w') as Hs end.
  unfold exec in Hs. rewrite Hs. simpl. rewrite <- !app_assoc. done.
Qed.

Lemma main_success_stdout_witness :
  scenario_text ≠ []
  ∧ length (stdout (exec (main (Body scenario_text) WriteOk) stale)) = 22%nat.
Proof.
  assert (scenario_text ≠ []) as Hne by (vm_compute; discriminate).
  split; [done|]. rewrite (main_success_stdout scenario_text stale Hne).
  by vm_compute.
Defined.

(** ** The text [json.dump] writes *)


Example escape_char_example :
  escape_char 10 = lit "\n" ∧ escape_char 31 = lit "\u001f"
  ∧ escape_char 127 = [127] ∧ escape_char 0x85 = [0x85]
  ∧ escape_char 0x2028 = [0x2028].
Proof. by repeat split. Qed.
















(** ** Feeding the result back *)

Lemma pad_categories_fixed (l : list str) :
  ((length l < 15)%nat → ∀ c, c ∈ additional_categories → c ∈ l) →
  pad_categories l = l.
Proof.
  intros Hall. destruct (decide (length l < 15)%nat) as [Hs|Hs];
    [|by apply pad_categories_long; lia].
  rewrite pad_categories_short by done.
  assert (filter (λ c, c ∉ l) additional_categories = []) as ->;
    [|by rewrite app_nil_r].
  specialize (Hall Hs). revert Hall.
  induction additional_categories as [|c cs IH]; intros Hall; [done|].
  rewrite filter_cons_False by (intros Hc; apply Hc, Hall; by left).
  apply IH. intros x Hx. apply Hall. by right.
Qed.

Lemma pad_categories_length (l : list str) :
  (length l ≤ length (pad_categories l))%nat.
Proof.
  destruct (decide (length l < 15)%nat) as [Hs|Hs].
  - rewrite pad_categories_short, length_app by done. lia.
  - by rewrite pad_categories_long by lia.
Qed.

(** X13. Padding a padded list changes nothing: once the fallback
    entries are in, a second pass finds each of them present. *)
Theorem pad_categories_idempotent (l : list str) :
  pad_categories (pad_categories l) = pad_categories l.
Proof.
  apply pad_categories_fixed. intros Hs c Hc.
  pose proof (pad_categories_length l) as Hlen.
  apply elem_of_pad_categories.
  destruct (decide (c ∈ l)); [by left|right]. repeat split; [done..|lia].
Qed.

Lemma split_no_sep (sep : N) (s : str) : sep ∉ s → split sep s = [s].
Proof.
  induction s as [|c s IH]; [done|]. intros Hs.
  apply not_elem_of_cons in Hs as [Hc Hs]. simpl.
  destruct (N.eqb_spec c sep) as [->|_]; [done|]. by rewrite IH.
Qed.

Lemma split_pieces (sep : N) (s : str) :
  Forall (λ x : str, sep ∉ x) (split sep s).
Proof.
  induction s as [|c s IH]; simpl.
  - repeat constructor. apply not_elem_of_nil.
  - destruct (N.eqb_spec c sep) as [->|Hc].
    + constructor; [apply not_elem_of_nil|done].
    + destruct (split sep s) as [|cur rest].
      { constructor; [|done]. rewrite list_elem_of_singleton. congruence. }
      apply Forall_cons in IH as [Hcur Hrest].
      constructor; [|done]. apply not_elem_of_cons. by split.
Qed.

Lemma split_join_lines (l : list str) :
  l ≠ [] → Forall (λ x : str, 10 ∉ x) l → split 10 (join_lines l) = l.
Proof.
  induction l as [|x l IH]; [done|]. intros _ Hall.
  apply Forall_cons in Hall as [Hx Hl]. destruct l as [|y l].
  - simpl. by apply split_no_sep.
  - change (join_lines (x :: y :: l)) with (x ++ 10 :: join_lines (y :: l)).
    rewrite split_app_sep, split_no_sep, IH by done. done.
Qed.

Lemma strip_no_newline (s : str) : 10 ∉ s → 10 ∉ strip s.
Proof.
  intros Hs Hin. apply Hs.
  destruct (lstrip_decompose s) as (ws & -> & _).
  destruct (rstrip_decompose (lstrip s)) as (ws' & Hdec & _).
  unfold strip in Hin. rewrite Hdec. set_solver.
Qed.

Lemma extract_entries_no_newline (content : str) :
  Forall (λ c : str, 10 ∉ c) (extract_electronics_categories content).
Proof.
  apply Forall_forall. intros c Hc.
  apply elem_of_extract, elem_of_pad_categories in Hc.
  destruct Hc as [Hc|(Hc & _)].
  - rewrite filter_lines_prefix in Hc.
    apply list_elem_of_filter in Hc as [_ Hc].
    apply list_elem_of_fmap in Hc as (line & -> & Hline).
    apply strip_no_newline.
    pose proof (split_pieces 10 (strip content)) as Hp.
    rewrite Forall_forall in Hp. by apply Hp.
  - assert (Forall (λ c : str, 10 ∉ c) additional_categories) as Hf.
    { apply (bool_decide_unpack _). vm_compute. exact I. }
    rewrite Forall_forall in Hf. by apply Hf.
Qed.

Lemma filter_kept_lines (l : list str) :
  Forall (λ c : str, keeps_prefix c = true ∧ strip c = c) l →
  filter (λ line, keeps_prefix line) (strip <$> l) = l.
Proof.
  induction 1 as [|c l [Hk Hs] _ IH]; [done|].
  rewrite fmap_cons, Hs, filter_cons_True by (by apply Is_true_eq_left).
  by rewrite IH.
Qed.

(** X14. The result is a fixed point of the function: written out one
    entry per line and read again as a fetched text, it comes back
    unchanged. *)
Theorem extract_fixed_point (content : str) :
  content ≠ [] →
  extract_electronics_categories
    (join_lines (extract_electronics_categories content))
  = extract_electronics_categories content.
Proof.
  intros Hne. set (out := extract_electronics_categories content).
  assert (Forall (λ c : str, keeps_prefix c = true ∧ strip c = c) out) as Hshape.
  { apply Forall_forall. intros c Hc.
    apply elem_of_extract, elem_of_pad_categories in Hc.
    destruct Hc as [Hc|(Hc & _)].
    - pose proof (filter_lines_shape content) as Hf.
      rewrite Forall_forall in Hf. by apply Hf.
    - pose proof fallback_entries_shape as Hf.
      rewrite Forall_forall in Hf. by apply Hf. }
  assert (length out = min 20 (length (combined_categories content))) as Hlen.
  { unfold out. rewrite extract_nonempty, length_take by done.
    by rewrite (Permutation_length (list_sort_Permutation _)). }
  pose proof (combined_length_lower content) as Hlow.
  assert (out ≠ []) as Hout.
  { intros Heq. rewrite Heq in Hlen. change (length (@nil str)) with 0%nat in Hlen.
    lia. }
  assert (filter_lines (join_lines out) = out) as Hfilter.
  { rewrite filter_lines_kept. unfold filter_by_prefix_lines.
    rewrite split_join_lines by (done || apply extract_entries_no_newline).
    by apply filter_kept_lines. }
  assert (join_lines out ≠ []) as Hjoin.
  { intros Heq. rewrite Heq in Hfilter. by rewrite filter_lines_empty in Hfilter. }
  assert (pad_categories out = out) as Hpad.
  { apply pad_categories_fixed. intros Hs c Hc.
    assert (out ≡ₚ combined_categories content) as Hp.
    { unfold out. rewrite extract_nonempty by done.
      rewrite take_ge; [apply list_sort_Permutation|].
      rewrite (Permutation_length (list_sort_Permutation _)). lia. }
    rewrite Hp. apply elem_of_pad_categories.
    pose proof (pad_categories_length (filter_lines content)) as Hle.
    fold (combined_categories content) in Hle.
    destruct (decide (c ∈ filter_lines content)); [by left|right].
    repeat split; [done..|lia]. }
  rewrite extract_nonempty by done.
  unfold combined_categories. rewrite Hfilter, Hpad.
  rewrite <- (list_sort_unique out out); [|apply extract_Sorted|done].
  apply take_ge. lia.
Qed.

Lemma extract_fixed_point_witness :
  wide_text ≠ []
  ∧ extract_electronics_categories
      (join_lines (extract_electronics_categories wide_text))
    = extract_electronics_categories wide_text.
Proof.
  assert (wide_text ≠ []) as Hne by (vm_compute; discriminate).
  exact (conj Hne (extract_fixed_point wide_text Hne)).
Defined.
